(** * Silla Prism wallbox sensors: value decoding and expiry tracking

    A shallow embedding of [custom_components/silla_prism/sensor.py]:
    the [PrismSensor] entity, which listens to one MQTT topic, decodes
    each payload into its native value and marks itself unavailable when
    no message has arrived for [expire_after].

    The host (Home Assistant) owns the clock, the timers and the MQTT
    client; they are modelled here as an explicit [Hass] record that the
    sensor's methods thread through, together with the list of calls the
    sensor makes into the host. *)

From Stdlib Require Import ZArith List String Ascii Bool Lia.
Import ListNotations.
Open Scope Z_scope.

(** ** The Python builtins the sensor relies on *)

Module Py.

(** The two exceptions of the decoding statement. *)
Inductive exn : Type := ValueError | IndexError.

(** How a call ends: it returns, or an exception leaves it. *)
Inductive outcome : Type := Returned | Raised (e : exn).

(** A payload is a text whose code points lie below 256. *)
Definition code (c : ascii) : nat := nat_of_ascii c.

(** What [int] skips around a literal: tab, line feed, vertical tab,
    form feed, carriage return and space, and the two blank code
    points above 127 (next line, no-break space). *)
Definition is_space (c : ascii) : bool :=
  let n := code c in
  ((9 <=? n) && (n <=? 13) || (n =? 32) || (n =? 133) || (n =? 160))%nat.

Definition digit_val (c : ascii) : option Z :=
  let n := code c in
  if ((48 <=? n) && (n <=? 57))%nat then Some (Z.of_nat n - 48) else None.

Definition is_underscore (c : ascii) : bool := (code c =? 95)%nat.

Fixpoint lstrip (s : list ascii) : list ascii :=
  match s with
  | c :: r => if is_space c then lstrip r else s
  | [] => []
  end.

Definition strip (s : list ascii) : list ascii :=
  rev (lstrip (rev (lstrip s))).

(** Digits after a first digit: a single underscore may separate two
    digits.  [n] counts the digits read. *)
Fixpoint more_digits (acc : Z) (n : nat) (s : list ascii) : option (Z * nat) :=
  match s with
  | [] => Some (acc, n)
  | c :: r =>
      match digit_val c with
      | Some d => more_digits (10 * acc + d) (S n) r
      | None =>
          if is_underscore c then
            match r with
            | c' :: r' =>
                match digit_val c' with
                | Some d => more_digits (10 * acc + d) (S n) r'
                | None => None
                end
            | [] => None
            end
          else None
      end
  end.

Definition digits (s : list ascii) : option (Z * nat) :=
  match s with
  | c :: r =>
      match digit_val c with
      | Some d => more_digits d 1 r
      | None => None
      end
  | [] => None
  end.

(** The interpreter refuses to convert more than this many digits. *)
Definition int_max_str_digits : nat := 4300.

Definition magnitude (s : list ascii) : option Z :=
  match digits s with
  | Some (v, n) => if (n <=? int_max_str_digits)%nat then Some v else None
  | None => None
  end.

(** [int(s)] in base ten; [None] stands for [ValueError]. *)
Definition int (s : string) : option Z :=
  match strip (list_ascii_of_string s) with
  | c :: r =>
      if (code c =? 45)%nat then option_map Z.opp (magnitude r)
      else if (code c =? 43)%nat then magnitude r
      else magnitude (c :: r)
  | [] => None
  end.

(** [l[i]]: an index from [-len l] to [len l - 1] selects an element,
    a negative one counting from the end; [None] stands for
    [IndexError]. *)
Definition getitem {A : Type} (l : list A) (i : Z) : option A :=
  let n := Z.of_nat (List.length l) in
  if 0 <=? i then nth_error l (Z.to_nat i)
  else if - n <=? i then nth_error l (Z.to_nat (n + i))
  else None.

End Py.

(** ** The host *)

(** A handle names a registration with the host: a timer or a
    subscription. *)
Definition handle : Type := nat.

(** The calls a sensor makes into the host. *)
Inductive call : Type :=
| mqtt_subscribe (topic : string) (sub : handle)
| mqtt_unsubscribe (sub : handle)
| call_later (t : handle) (deadline : Z)
| cancel_timer (t : handle)
| async_write_ha_state
| schedule_update_ha_state.

(** The host as the sensor sees it: the clock, the timers that are
    scheduled and have neither fired nor been cancelled, the next unused
    handle, and the calls received so far, newest first. *)
Record Hass : Type := mkHass {
  now : Z;
  timers : list (handle * Z);
  fresh : handle;
  calls : list call
}.

Definition log (c : call) (h : Hass) : Hass :=
  mkHass (now h) (timers h) (fresh h) (c :: calls h).

(** [async_call_later(hass, delay, action)]: the action is due [delay]
    after the present instant; the result cancels it. *)
Definition async_call_later (delay : Z) (h : Hass) : handle * Hass :=
  let t := fresh h in
  let due := now h + delay in
  (t, mkHass (now h) (timers h ++ [(t, due)]) (S t) (call_later t due :: calls h)).

(** Calling what [async_call_later] returned. *)
Definition cancel (t : handle) (h : Hass) : Hass :=
  mkHass (now h)
         (filter (fun p => negb (Nat.eqb (fst p) t)) (timers h))
         (fresh h)
         (cancel_timer t :: calls h).

(** [mqtt.async_subscribe(topic, handler)]: the result unsubscribes. *)
Definition async_subscribe (topic : string) (h : Hass) : handle * Hass :=
  let s := fresh h in
  (s, mkHass (now h) (timers h) (S s) (mqtt_subscribe topic s :: calls h)).

(** ** The sensor *)

(** [PrismSensorEntityDescription]: what a row of [SENSORS] fixes for
    one sensor.  Durations are counted in ticks of the host clock. *)
Record PrismSensorEntityDescription : Type := mkDescription {
  topic : string;
  expire_after : option Z;
  options : option (list string)
}.

(** The attributes of a [PrismSensor] that its methods assign. *)
Record PrismSensor : Type := mkSensor {
  _attr_available : bool;
  _attr_native_value : option string;
  _expiration_trigger : option handle;
  _unsubscribe : option handle
}.

Record World : Type := mkWorld {
  self : PrismSensor;
  hass : Hass
}.

Definition set_available (b : bool) (s : PrismSensor) : PrismSensor :=
  mkSensor b (_attr_native_value s) (_expiration_trigger s) (_unsubscribe s).

Definition set_native_value (v : option string) (s : PrismSensor) : PrismSensor :=
  mkSensor (_attr_available s) v (_expiration_trigger s) (_unsubscribe s).

Definition set_expiration_trigger (t : option handle) (s : PrismSensor) : PrismSensor :=
  mkSensor (_attr_available s) (_attr_native_value s) t (_unsubscribe s).

Definition set_unsubscribe (u : option handle) (s : PrismSensor) : PrismSensor :=
  mkSensor (_attr_available s) (_attr_native_value s) (_expiration_trigger s) u.

(** Modelled from the spec: the attributes of a sensor once [__init__]
    has run.  The base class [PrismBaseEntity] and the host's [Entity],
    which set all but [_unsubscribe], are not part of the sources: a new
    sensor has no reading ("no value"), no pending expiry and no
    subscription, and the host's entities start out available. *)
Definition new_sensor : PrismSensor :=
  mkSensor true None None None.

Definition boot : World :=
  mkWorld new_sensor (mkHass 0 [] O []).

Section Sensor.

Variable description : PrismSensorEntityDescription.

(** [_subscribe_topic] *)
Definition _subscribe_topic (w : World) : World :=
  let (s, h) := async_subscribe (topic description) (hass w) in
  mkWorld (set_unsubscribe (Some s) (self w)) h.

(** [_unsubscribe_topic] *)
Definition _unsubscribe_topic (w : World) : World :=
  match _unsubscribe (self w) with
  | Some s => mkWorld (self w) (log (mqtt_unsubscribe s) (hass w))
  | None => w
  end.

(** [_value_is_expired]: what the timer set by [_message_received]
    runs when it fires. *)
Definition _value_is_expired (w : World) : World :=
  let s := set_expiration_trigger None (self w) in
  let s := set_available false s in
  mkWorld s (log async_write_ha_state (hass w)).

(** The first statement of [_message_received]: with a positive
    [expire_after] the sensor becomes available, the old trigger is
    called and a new one is set. *)
Definition rearm (w : World) : World :=
  match expire_after description with
  | Some e =>
      if 0 <? e then
        let s := set_available true (self w) in
        let h :=
          match _expiration_trigger s with
          | Some t => cancel t (hass w)
          | None => hass w
          end in
        let (t, h) := async_call_later e h in
        mkWorld (set_expiration_trigger (Some t) s) h
      else w
  | None => w
  end.

(** The second statement of [_message_received]: the native value.
    With [options], [int] may raise [ValueError], which nothing
    catches; [IndexError] from the subscript is caught and gives
    [None]. *)
Definition decode (payload : string) : Py.exn + option string :=
  match options description with
  | Some opts =>
      match Py.int payload with
      | Some k =>
          match Py.getitem opts (k - 1) with
          | Some label => inr (Some label)
          | None => inr None
          end
      | None => inl Py.ValueError
      end
  | None => inr (Some payload)
  end.

(** [_message_received]: the state it leaves and how it ends.  An
    exception leaves the assignments made before it in place and skips
    the rest of the body. *)
Definition _message_received (payload : string) (w : World) : World * Py.outcome :=
  let w := rearm w in
  match decode payload with
  | inr v =>
      (mkWorld (set_native_value v (self w))
               (log schedule_update_ha_state (hass w)),
       Py.Returned)
  | inl e => (w, Py.Raised e)
  end.

(** [async_added_to_hass] *)
Definition async_added_to_hass (w : World) : World :=
  _subscribe_topic (mkWorld (set_available false (self w)) (hass w)).

(** [async_will_remove_from_hass]; the inherited method it calls first
    is the host's, which does nothing to the sensor. *)
Definition async_will_remove_from_hass (w : World) : World :=
  let w :=
    match _expiration_trigger (self w) with
    | Some t =>
        let h := cancel t (hass w) in
        let s := set_expiration_trigger None (self w) in
        let s := set_available true s in
        mkWorld s h
    | None => w
    end in
  match _unsubscribe (self w) with
  | Some _ => _unsubscribe_topic w
  | None => w
  end.

(** A timer is due once the clock has reached its deadline. *)
Definition is_due (t : Z) (p : handle * Z) : bool := snd p <=? t.

(** The host lets [dt] pass: every timer due by then fires, which
    removes it and runs [_value_is_expired]. *)
Definition elapse (dt : Z) (w : World) : World :=
  let t := now (hass w) + dt in
  let due := filter (is_due t) (timers (hass w)) in
  let rest := filter (fun p => negb (is_due t p)) (timers (hass w)) in
  fold_left (fun w _ => _value_is_expired w) due
            (mkWorld (self w) (mkHass t rest (fresh (hass w)) (calls (hass w)))).

(** What can happen to a sensor, and a run of such events.  A
    [Message] is the event loop running [_message_received], which
    [message_received] has queued with [call_soon_threadsafe]; the loop
    runs one callback at a time, timers included. *)
Inductive event : Type :=
| Attach
| Message (payload : string)
| Elapse (dt : Z)
| Detach.

Definition step (w : World) (ev : event) : World :=
  match ev with
  | Attach => async_added_to_hass w
  | Message payload => fst (_message_received payload w)
  | Elapse dt => elapse dt w
  | Detach => async_will_remove_from_hass w
  end.

Definition run (evs : list event) (w : World) : World :=
  fold_left step evs w.

End Sensor.

(** How often the value has expired: [_value_is_expired] is the only
    caller of [async_write_ha_state]. *)
Definition is_write (c : call) : bool :=
  match c with
  | async_write_ha_state => true
  | _ => false
  end.

Definition expirations (w : World) : nat :=
  List.length (filter is_write (calls (hass w))).

(** The first row of [SENSORS]: the charging state, with the default
    [expire_after] of 600. *)
Definition current_state : PrismSensorEntityDescription :=
  mkDescription "1/state" (Some 600) (Some ["idle"; "waiting"; "charging"; "pause"]%string).

(** A description in the shape of the measurement rows of [SENSORS],
    with expiry switched off. *)
Definition power_grid_voltage_no_expiry : PrismSensorEntityDescription :=
  mkDescription "1/volt" (Some 0) None.

(** The time a list of waits adds up to. *)
Definition total (dts : list Z) : Z := fold_right Z.add 0 dts.

Definition is_message (ev : event) : bool :=
  match ev with
  | Message _ => true
  | _ => false
  end.

(** The scheduler holds exactly the timer the sensor remembers. *)
Definition tidy (w : World) : Prop :=
  match _expiration_trigger (self w) with
  | Some t => exists due, timers (hass w) = [(t, due)]
  | None => timers (hass w) = []
  end.

(** Nothing is scheduled and nothing has expired: the state a sensor
    keeps while its expiry is off. *)
Definition quiet (w : World) : Prop :=
  _expiration_trigger (self w) = None
  /\ timers (hass w) = []
  /\ expirations w = O.

(** A run of waits. *)
Definition waits (dts : list Z) : list event := map Elapse dts.

(** Expiry is off when [expire_after] is absent or not positive. *)
Definition expiry_off (d : PrismSensorEntityDescription) : Prop :=
  match expire_after d with
  | Some e => e <= 0
  | None => True
  end.

(** ** The table of sensors and the set-up of an entry *)

Inductive SensorDeviceClass : Type :=
| ENUM | VOLTAGE | POWER | CURRENT | DURATION | ENERGY.

Inductive SensorStateClass : Type :=
| MEASUREMENT | TOTAL | TOTAL_INCREASING.

Inductive UnitOfMeasurement : Type :=
| VOLT | WATT | MILLIAMPERE | AMPERE | SECONDS | WATT_HOUR.

(** The fields a row of [SENSORS] sets besides [topic] and [options],
    all inherited from the host's description class; the sensor's
    methods read none of them. *)
Record SensorEntityDescription : Type := mkEntity {
  key : string;
  device_class : SensorDeviceClass;
  state_class : option SensorStateClass;
  native_unit_of_measurement : option UnitOfMeasurement;
  suggested_display_precision : option Z;
  has_entity_name : bool;
  translation_key : string
}.

(** [expire_after: float = 600]: what a row that does not set it gets. *)
Definition default_expire_after : Z := 600.

(** A row: the inherited fields, and the fields the methods read. *)
Definition Row : Type :=
  (SensorEntityDescription * PrismSensorEntityDescription)%type.

(** [SENSORS], row by row. *)
Definition SENSORS : list Row :=
  [ (mkEntity "current_state" ENUM None None None true "current_state",
     mkDescription "1/state" (Some default_expire_after)
       (Some ["idle"; "waiting"; "charging"; "pause"]%string));
    (mkEntity "power_grid_voltage" VOLTAGE (Some MEASUREMENT) (Some VOLT)
       (Some 0) true "power_grid_voltage",
     mkDescription "1/volt" (Some default_expire_after) None);
    (mkEntity "output_power" POWER (Some MEASUREMENT) (Some WATT)
       (Some 0) true "output_power",
     mkDescription "1/w" (Some default_expire_after) None);
    (mkEntity "output_current" CURRENT (Some MEASUREMENT) (Some MILLIAMPERE)
       (Some 0) true "output_current",
     mkDescription "1/amp" (Some default_expire_after) None);
    (mkEntity "output_car_current" CURRENT (Some MEASUREMENT) (Some AMPERE)
       (Some 0) true "output_car_current",
     mkDescription "1/pilot" (Some default_expire_after) None);
    (mkEntity "current_set_by_user" CURRENT (Some MEASUREMENT) (Some AMPERE)
       (Some 0) true "current_set_by_user",
     mkDescription "1/user_amp" (Some default_expire_after) None);
    (mkEntity "session_time" DURATION (Some MEASUREMENT) (Some SECONDS)
       (Some 0) true "session_time",
     mkDescription "1/session_time" (Some default_expire_after) None);
    (mkEntity "session_output_energy" ENERGY (Some TOTAL) (Some WATT_HOUR)
       (Some 0) true "session_output_energy",
     mkDescription "1/wh" (Some default_expire_after) None);
    (mkEntity "total_output_energy" ENERGY (Some TOTAL_INCREASING) (Some WATT_HOUR)
       (Some 0) true "total_output_energy",
     mkDescription "1/wh_total" (Some default_expire_after) None);
    (mkEntity "current_port_mode" ENUM None None None true "current_port_mode",
     mkDescription "1/mode" (Some default_expire_after)
       (Some ["solar"; "normal"; "paused"; "suspended"]%string));
    (mkEntity "input_grid_power" POWER (Some MEASUREMENT) (Some WATT)
       (Some 0) true "input_grid_power",
     mkDescription "energy_data/power_grid" (Some default_expire_after) None) ].

(** A sensor with the description it was built from. *)
Definition Entity : Type := (PrismSensorEntityDescription * PrismSensor)%type.

(** [[PrismSensor(entry_data, description) for description in ...]] *)
Definition new_sensors (ds : list PrismSensorEntityDescription) : list Entity :=
  map (fun d => (d, new_sensor)) ds.

(** [async_setup_entry]: one new sensor for each row of [SENSORS],
    handed to the callback the host passes in. *)
Definition async_setup_entry {R : Type} (async_add_entities : list Entity -> R) : R :=
  async_add_entities (new_sensors (map snd SENSORS)).

(** ** Reading the list of calls and a run of events *)

Definition is_subscribe (c : call) : bool :=
  match c with
  | mqtt_subscribe _ _ => true
  | _ => false
  end.

Definition is_schedule_update (c : call) : bool :=
  match c with
  | schedule_update_ha_state => true
  | _ => false
  end.

(** The calls that set or cancel a timer. *)
Definition is_timer_call (c : call) : bool :=
  match c with
  | call_later _ _ | cancel_timer _ => true
  | _ => false
  end.

Definition count (f : call -> bool) (l : list call) : nat :=
  List.length (filter f l).

(** The topics subscribed to, oldest first, with the handles given. *)
Fixpoint subscriptions (l : list call) : list (string * handle) :=
  match l with
  | mqtt_subscribe t s :: r => subscriptions r ++ [(t, s)]
  | _ :: r => subscriptions r
  | [] => []
  end.

(** The handle of the newest subscription in a list of calls. *)
Fixpoint latest_subscription (l : list call) : option handle :=
  match l with
  | mqtt_subscribe _ s :: _ => Some s
  | _ :: r => latest_subscription r
  | [] => None
  end.

(** Every call to unsubscribe names the newest subscription made
    before it. *)
Fixpoint unsubscribes_latest (l : list call) : Prop :=
  match l with
  | mqtt_unsubscribe s :: r => latest_subscription r = Some s /\ unsubscribes_latest r
  | _ :: r => unsubscribes_latest r
  | [] => True
  end.

Definition is_attach (ev : event) : bool :=
  match ev with
  | Attach => true
  | _ => false
  end.

(** The event is a message whose payload the sensor decodes. *)
Definition decodes (d : PrismSensorEntityDescription) (ev : event) : bool :=
  match ev with
  | Message payload =>
      match decode d payload with
      | inr _ => true
      | inl _ => false
      end
  | _ => false
  end.

(** The reading a run leaves: that of its last message that was
    decoded; no other event counts. *)
Definition last_reading (d : PrismSensorEntityDescription) (evs : list event)
  : option string :=
  fold_left (fun acc ev =>
               match ev with
               | Message payload =>
                   match decode d payload with
                   | inr v => v
                   | inl _ => acc
                   end
               | _ => acc
               end)
            evs None.

(** The payload of the last message of a run. *)
Definition last_payload (evs : list event) : option string :=
  fold_left (fun acc ev => match ev with Message p => Some p | _ => acc end)
            evs None.

(** No wait of the run goes back in time. *)
Definition forward (ev : event) : bool :=
  match ev with
  | Elapse dt => 0 <=? dt
  | _ => true
  end.

(** * Subscripts *)

Section Subscript.

Context {A : Type}.
Implicit Types (l : list A) (i : Z).

Lemma getitem_nonneg l i :
  0 <= i -> Py.getitem l i = nth_error l (Z.to_nat i).
Proof.
  intros Hi. unfold Py.getitem.
  destruct (Z.leb_spec 0 i); [reflexivity | lia].
Qed.

Lemma getitem_negative l i :
  - Z.of_nat (List.length l) <= i < 0 ->
  Py.getitem l i = nth_error l (Z.to_nat (Z.of_nat (List.length l) + i)).
Proof.
  intros Hi. unfold Py.getitem.
  destruct (Z.leb_spec 0 i); [lia |].
  destruct (Z.leb_spec (- Z.of_nat (List.length l)) i); [reflexivity | lia].
Qed.

Lemma getitem_above l i :
  Z.of_nat (List.length l) <= i -> Py.getitem l i = None.
Proof.
  intros Hi. rewrite getitem_nonneg by lia.
  apply nth_error_None. lia.
Qed.

Lemma getitem_below l i :
  i < - Z.of_nat (List.length l) -> Py.getitem l i = None.
Proof.
  intros Hi. unfold Py.getitem.
  destruct (Z.leb_spec 0 i); [lia |].
  destruct (Z.leb_spec (- Z.of_nat (List.length l)) i); [lia | reflexivity].
Qed.

Lemma nth_error_in_range l (n : nat) :
  (n < List.length l)%nat -> exists x, nth_error l n = Some x.
Proof.
  intros Hn. destruct (nth_error l n) as [x |] eqn:E.
  - now exists x.
  - apply nth_error_None in E. lia.
Qed.

Lemma nth_error_last l (d : A) :
  l <> [] -> nth_error l (List.length l - 1) = Some (last l d).
Proof.
  induction l as [| a [| b r] IH]; intros Hl.
  - congruence.
  - reflexivity.
  - replace (List.length (a :: b :: r) - 1)%nat
      with (S (List.length (b :: r) - 1)) by (cbn [List.length]; lia).
    cbn [nth_error]. rewrite IH by discriminate. reflexivity.
Qed.

End Subscript.

(** * Decoding with [options] *)

Section Decoding.

Variable description : PrismSensorEntityDescription.
Variable opts : list string.
Hypothesis has_options : options description = Some opts.

Lemma decode_not_int payload :
  Py.int payload = None -> decode description payload = inl Py.ValueError.
Proof. intros E. unfold decode. now rewrite has_options, E. Qed.

Lemma decode_int payload k :
  Py.int payload = Some k ->
  decode description payload = inr (Py.getitem opts (k - 1)).
Proof.
  intros E. unfold decode. rewrite has_options, E.
  now destruct (Py.getitem opts (k - 1)).
Qed.

(** From 1 to the number of options the payload selects its label. *)
Lemma decode_index payload k :
  Py.int payload = Some k -> 1 <= k <= Z.of_nat (List.length opts) ->
  decode description payload = inr (nth_error opts (Z.to_nat (k - 1))).
Proof.
  intros E Hk. rewrite (decode_int _ _ E), getitem_nonneg by lia. reflexivity.
Qed.

(** From [1 - len opts] to 0 the subscript is negative and counts
    from the end. *)
Lemma decode_wraps payload k :
  Py.int payload = Some k -> 1 - Z.of_nat (List.length opts) <= k <= 0 ->
  decode description payload
  = inr (nth_error opts (Z.to_nat (Z.of_nat (List.length opts) + k - 1))).
Proof.
  intros E Hk. rewrite (decode_int _ _ E), getitem_negative by lia.
  do 3 f_equal. lia.
Qed.

(** Anywhere else the subscript raises [IndexError], which is caught. *)
Lemma decode_out_of_range payload k :
  Py.int payload = Some k ->
  k < 1 - Z.of_nat (List.length opts) \/ Z.of_nat (List.length opts) < k ->
  decode description payload = inr None.
Proof.
  intros E [Hk | Hk]; rewrite (decode_int _ _ E).
  - now rewrite getitem_below by lia.
  - now rewrite getitem_above by lia.
Qed.

End Decoding.

(** * One timer per sensor *)

Section Timers.

Variable description : PrismSensorEntityDescription.

Lemma cancel_own t due h :
  timers h = [(t, due)] -> timers (cancel t h) = [].
Proof.
  intros E. unfold cancel. cbn [timers]. rewrite E. cbn.
  now rewrite Nat.eqb_refl.
Qed.

(** What [rearm] leaves when the expiry is on. *)
Lemma rearm_on e w :
  expire_after description = Some e -> 0 < e -> tidy w ->
  self (rearm description w)
    = mkSensor true (_attr_native_value (self w))
               (Some (fresh (hass w))) (_unsubscribe (self w))
  /\ now (hass (rearm description w)) = now (hass w)
  /\ timers (hass (rearm description w)) = [(fresh (hass w), now (hass w) + e)]
  /\ calls (hass (rearm description w))
     = call_later (fresh (hass w)) (now (hass w) + e)
         :: match _expiration_trigger (self w) with
            | Some t => [cancel_timer t]
            | None => []
            end ++ calls (hass w).
Proof.
  intros He Hpos Ht. unfold rearm. rewrite He.
  destruct (Z.ltb_spec 0 e); [| lia].
  unfold tidy in Ht. cbn [set_available _expiration_trigger].
  destruct (_expiration_trigger (self w)) as [t |].
  - destruct Ht as [due Ht].
    unfold async_call_later. cbn [self hass now timers fresh calls cancel].
    rewrite Ht. cbn. rewrite Nat.eqb_refl. cbn. repeat split; reflexivity.
  - unfold async_call_later. cbn [self hass now timers fresh calls].
    rewrite Ht. repeat split; reflexivity.
Qed.

(** What [rearm] leaves when the expiry is off. *)
Lemma rearm_off w :
  match expire_after description with
  | Some e => e <= 0
  | None => True
  end ->
  rearm description w = w.
Proof.
  unfold rearm. destruct (expire_after description) as [e |]; [| reflexivity].
  intros He. destruct (Z.ltb_spec 0 e); [lia | reflexivity].
Qed.

Lemma tidy_rearm w : tidy w -> tidy (rearm description w).
Proof.
  intros Ht. destruct (expire_after description) as [e |] eqn:He.
  - destruct (Z_lt_le_dec 0 e) as [Hpos | Hle].
    + destruct (rearm_on e w He Hpos Ht) as (Hs & _ & Htm & _).
      unfold tidy. rewrite Hs, Htm. cbn. now eexists.
    + rewrite rearm_off; [assumption | now rewrite He].
  - rewrite rearm_off; [assumption | now rewrite He].
Qed.

Lemma tidy_message payload w :
  tidy w -> tidy (fst (_message_received description payload w)).
Proof.
  intros Ht. apply tidy_rearm in Ht. unfold _message_received.
  destruct (decode description payload); exact Ht.
Qed.

Lemma tidy_attach w : tidy w -> tidy (async_added_to_hass description w).
Proof. intros Ht. exact Ht. Qed.

Lemma detach_fields w :
  tidy w ->
  let w' := async_will_remove_from_hass w in
  _expiration_trigger (self w') = None
  /\ timers (hass w') = []
  /\ _attr_available (self w')
     = match _expiration_trigger (self w) with
       | Some _ => true
       | None => _attr_available (self w)
       end
  /\ _attr_native_value (self w') = _attr_native_value (self w)
  /\ _unsubscribe (self w') = _unsubscribe (self w)
  /\ now (hass w') = now (hass w)
  /\ calls (hass w')
     = match _unsubscribe (self w) with
       | Some s => [mqtt_unsubscribe s]
       | None => []
       end
       ++ match _expiration_trigger (self w) with
          | Some t => [cancel_timer t]
          | None => []
          end
       ++ calls (hass w).
Proof.
  intros Ht. unfold tidy in Ht.
  unfold async_will_remove_from_hass, _unsubscribe_topic.
  destruct w as [[av v tr un] h]. cbn in *.
  destruct tr as [t |].
  - destruct Ht as [due Ht]. destruct un as [s |]; cbn; rewrite Ht; cbn;
      rewrite Nat.eqb_refl; repeat split; reflexivity.
  - destruct un as [s |]; cbn; repeat split; assumption || reflexivity.
Qed.

Lemma tidy_detach w :
  tidy w -> tidy (async_will_remove_from_hass w).
Proof.
  intros Ht. destruct (detach_fields w Ht) as (Htr & Htm & _).
  unfold tidy. now rewrite Htr.
Qed.

(** Letting time pass: nothing is scheduled, the timer is not yet due,
    or it is due and fires. *)
Lemma elapse_idle dt w :
  timers (hass w) = [] ->
  elapse dt w
    = mkWorld (self w) (mkHass (now (hass w) + dt) [] (fresh (hass w)) (calls (hass w))).
Proof. intros E. unfold elapse. now rewrite E. Qed.

Lemma elapse_early dt w t due :
  timers (hass w) = [(t, due)] -> now (hass w) + dt < due ->
  elapse dt w
    = mkWorld (self w)
              (mkHass (now (hass w) + dt) [(t, due)] (fresh (hass w)) (calls (hass w))).
Proof.
  intros E Hlt. unfold elapse. rewrite E. cbn. unfold is_due. cbn.
  destruct (Z.leb_spec due (now (hass w) + dt)); [lia | reflexivity].
Qed.

Lemma elapse_due dt w t due :
  timers (hass w) = [(t, due)] -> due <= now (hass w) + dt ->
  elapse dt w
    = _value_is_expired
        (mkWorld (self w)
                 (mkHass (now (hass w) + dt) [] (fresh (hass w)) (calls (hass w)))).
Proof.
  intros E Hle. unfold elapse. rewrite E. cbn. unfold is_due. cbn.
  destruct (Z.leb_spec due (now (hass w) + dt)); [reflexivity | lia].
Qed.

Lemma tidy_elapse dt w : tidy w -> tidy (elapse dt w).
Proof.
  intros Ht. unfold tidy in Ht.
  destruct (_expiration_trigger (self w)) as [t |] eqn:Etr.
  - destruct Ht as [due Ht].
    destruct (Z_lt_le_dec (now (hass w) + dt) due) as [Hlt | Hle].
    + rewrite (elapse_early dt w t due Ht Hlt). unfold tidy. cbn.
      rewrite Etr. now eexists.
    + rewrite (elapse_due dt w t due Ht Hle). reflexivity.
  - rewrite (elapse_idle dt w Ht). unfold tidy. cbn. now rewrite Etr.
Qed.

Lemma tidy_step w ev : tidy w -> tidy (step description w ev).
Proof.
  destruct ev; cbn [step].
  - apply tidy_attach.
  - apply tidy_message.
  - apply tidy_elapse.
  - apply tidy_detach.
Qed.

Lemma tidy_run evs : forall w, tidy w -> tidy (run description evs w).
Proof.
  induction evs as [| ev evs IH]; intros w Ht; [exact Ht |].
  apply IH, tidy_step, Ht.
Qed.

Lemma tidy_boot : tidy boot.
Proof. reflexivity. Qed.

Lemma tidy_reachable evs : tidy (run description evs boot).
Proof. apply tidy_run, tidy_boot. Qed.

Lemma tidy_at_most_one w : tidy w -> (List.length (timers (hass w)) <= 1)%nat.
Proof.
  unfold tidy. destruct (_expiration_trigger (self w)).
  - intros [due ->]. cbn. lia.
  - intros ->. cbn. lia.
Qed.

End Timers.

(** * Waiting *)

Section Waiting.

Variable description : PrismSensorEntityDescription.

Lemma waits_idle dts : forall w,
  timers (hass w) = [] ->
  run description (waits dts) w
    = mkWorld (self w)
              (mkHass (now (hass w) + total dts) [] (fresh (hass w)) (calls (hass w))).
Proof.
  induction dts as [| dt dts IH]; intros w E.
  - destruct w as [s [t tm f c]]. cbn in *. subst tm. now rewrite Z.add_0_r.
  - cbn [waits map run fold_left step]. rewrite (elapse_idle dt w E).
    change (fold_left (step description) (map Elapse dts))
      with (run description (waits dts)).
    rewrite IH by reflexivity. cbn. now rewrite Z.add_assoc.
Qed.

Lemma waits_early dts : forall w t due,
  timers (hass w) = [(t, due)] ->
  Forall (fun dt => 0 <= dt) dts ->
  now (hass w) + total dts < due ->
  run description (waits dts) w
    = mkWorld (self w)
              (mkHass (now (hass w) + total dts) [(t, due)]
                      (fresh (hass w)) (calls (hass w))).
Proof.
  induction dts as [| dt dts IH]; intros w t due E Hpos Hlt.
  - destruct w as [s [t0 tm f c]]. cbn in *. subst tm. now rewrite Z.add_0_r.
  - inversion Hpos as [| ? ? Hdt Hrest]; subst.
    assert (0 <= total dts).
    { clear -Hrest. unfold total. induction Hrest; cbn [fold_right]; lia. }
    cbn [total fold_right] in Hlt. fold (total dts) in Hlt.
    cbn [waits map run fold_left step].
    rewrite (elapse_early dt w t due E) by lia.
    change (fold_left (step description) (map Elapse dts))
      with (run description (waits dts)).
    rewrite (IH _ t due); [| reflexivity | assumption | cbn; lia].
    cbn. now rewrite Z.add_assoc.
Qed.

Lemma waits_due dts : forall w t due,
  timers (hass w) = [(t, due)] ->
  now (hass w) < due ->
  due <= now (hass w) + total dts ->
  run description (waits dts) w
    = _value_is_expired
        (mkWorld (self w)
                 (mkHass (now (hass w) + total dts) []
                         (fresh (hass w)) (calls (hass w)))).
Proof.
  induction dts as [| dt dts IH]; intros w t due E Hnow Hle.
  - cbn in Hle. lia.
  - cbn [total fold_right] in Hle. fold (total dts) in Hle.
    cbn [waits map run fold_left step].
    change (fold_left (step description) (map Elapse dts))
      with (run description (waits dts)).
    destruct (Z_lt_le_dec (now (hass w) + dt) due) as [Hlt | Hge].
    + rewrite (elapse_early dt w t due E Hlt).
      rewrite (IH _ t due); [| reflexivity | cbn; lia | cbn; lia].
      cbn. now rewrite Z.add_assoc.
    + rewrite (elapse_due dt w t due E Hge).
      rewrite waits_idle by reflexivity.
      cbn. now rewrite Z.add_assoc.
Qed.

(** A message never counts as an expiry and keeps the subscription. *)
Lemma rearm_keeps w :
  _attr_native_value (self (rearm description w)) = _attr_native_value (self w)
  /\ _unsubscribe (self (rearm description w)) = _unsubscribe (self w)
  /\ expirations (rearm description w) = expirations w.
Proof.
  unfold rearm. destruct (expire_after description) as [e |]; [| now repeat split].
  destruct (0 <? e); [| now repeat split].
  cbn. destruct (_expiration_trigger (self w)); now repeat split.
Qed.

Lemma message_keeps payload w :
  let w' := fst (_message_received description payload w) in
  now (hass w') = now (hass (rearm description w))
  /\ timers (hass w') = timers (hass (rearm description w))
  /\ _attr_available (self w') = _attr_available (self (rearm description w))
  /\ _expiration_trigger (self w') = _expiration_trigger (self (rearm description w))
  /\ _unsubscribe (self w') = _unsubscribe (self w)
  /\ expirations w' = expirations w.
Proof.
  destruct (rearm_keeps w) as (_ & Hun & Hex).
  unfold _message_received. destruct (decode description payload);
    cbn; repeat split; assumption.
Qed.

(** A message with the expiry on: the sensor is available and the one
    timer is due a full [expire_after] from now. *)
Lemma message_on e payload w :
  expire_after description = Some e -> 0 < e -> tidy w ->
  let w' := fst (_message_received description payload w) in
  _attr_available (self w') = true
  /\ _expiration_trigger (self w') = Some (fresh (hass w))
  /\ timers (hass w') = [(fresh (hass w), now (hass w) + e)]
  /\ now (hass w') = now (hass w)
  /\ expirations w' = expirations w.
Proof.
  intros He Hpos Ht.
  destruct (rearm_on description e w He Hpos Ht) as (Hs & Hn & Htm & _).
  destruct (message_keeps payload w) as (Hn' & Htm' & Hav & Htr & _ & Hex).
  cbn zeta. rewrite Hn', Htm', Hav, Htr, Hs, Hn, Htm. cbn. now repeat split.
Qed.

Lemma elapse_value dt w :
  _attr_native_value (self (elapse dt w)) = _attr_native_value (self w).
Proof.
  unfold elapse.
  generalize (filter (is_due (now (hass w) + dt)) (timers (hass w))).
  generalize (mkHass (now (hass w) + dt)
                (filter (fun p => negb (is_due (now (hass w) + dt) p)) (timers (hass w)))
                (fresh (hass w)) (calls (hass w))).
  intros h due.
  change (_attr_native_value (self w))
    with (_attr_native_value (self (mkWorld (self w) h))).
  generalize (mkWorld (self w) h). clear.
  induction due as [| p due IH]; intros w; [reflexivity |].
  cbn [fold_left]. now rewrite IH.
Qed.

Lemma quiet_step w ev :
  expiry_off description -> quiet w -> quiet (step description w ev).
Proof.
  intros Hoff (Htr & Htm & Hex). destruct ev; cbn [step].
  - repeat split; assumption.
  - unfold _message_received. rewrite (rearm_off description w Hoff).
    destruct (decode description payload); repeat split; assumption.
  - rewrite (elapse_idle dt w Htm). repeat split; assumption.
  - unfold async_will_remove_from_hass, _unsubscribe_topic. rewrite Htr.
    destruct (_unsubscribe (self w)); repeat split; assumption.
Qed.

Lemma quiet_run evs : forall w,
  expiry_off description -> quiet w -> quiet (run description evs w).
Proof.
  induction evs as [| ev evs IH]; intros w Hoff Hq; [exact Hq |].
  apply IH; [assumption |]. now apply quiet_step.
Qed.

(** Before the first message there is no reading. *)
Lemma no_message_no_value evs : forall w,
  forallb (fun ev => negb (is_message ev)) evs = true ->
  _attr_native_value (self (run description evs w)) = _attr_native_value (self w).
Proof.
  induction evs as [| ev evs IH]; intros w Hno; [reflexivity |].
  cbn [forallb] in Hno. apply andb_prop in Hno as [Hev Hno].
  cbn [run fold_left].
  change (fold_left (step description) evs) with (run description evs).
  rewrite (IH _ Hno). destruct ev; cbn [step].
  - reflexivity.
  - discriminate.
  - apply elapse_value.
  - unfold async_will_remove_from_hass, _unsubscribe_topic.
    destruct (_expiration_trigger (self w)); cbn;
      destruct (_unsubscribe (self w)); reflexivity.
Qed.

End Waiting.

(** * Enumerated decoding *)

Open Scope string_scope.
Open Scope list_scope.
Open Scope Z_scope.

(** C1, at the charging-state sensor: payload "3" gives "charging" and
    payload "5" gives no value, as the claim says; but payload "0" gives
    the last label, "pause", and payload "abc" ends [_message_received]
    with [ValueError], leaving the reading of the message before it. *)
Theorem current_state_decoding :
  let w := run current_state [Attach; Message "1"] boot in
  _attr_native_value (self w) = Some "idle"
  /\ _attr_native_value (self (fst (_message_received current_state "3" w)))
     = Some "charging"
  /\ _attr_native_value (self (fst (_message_received current_state "5" w)))
     = None
  /\ _attr_native_value (self (fst (_message_received current_state "0" w)))
     = Some "pause"
  /\ snd (_message_received current_state "abc" w) = Py.Raised Py.ValueError
  /\ _attr_native_value (self (fst (_message_received current_state "abc" w)))
     = Some "idle".
Proof. vm_compute. repeat split; reflexivity. Qed.

(** C2, at the charging-state sensor: whatever the state, a payload
    that is not an integer literal makes [_message_received] end with
    [ValueError]; the reading is not set to no value, and the host is
    not asked to update the state. *)
Theorem value_error_escapes (w : World) :
  let r := _message_received current_state "abc" w in
  snd r = Py.Raised Py.ValueError
  /\ _attr_native_value (self (fst r)) = _attr_native_value (self w)
  /\ fst r = rearm current_state w.
Proof.
  assert (E : decode current_state "abc" = inl Py.ValueError) by reflexivity.
  unfold _message_received. rewrite E. cbn [fst snd].
  destruct (rearm_keeps current_state w) as (Hv & _).
  now repeat split.
Qed.

(** C9: with [n] options, a payload that reads as an integer [k] from
    [1 - n] to [0] returns normally and sets the value to the option at
    position [n + k - 1], counted from 0; payload "0" gives the last
    option. *)
Theorem negative_subscript_wraps
    (d : PrismSensorEntityDescription) (opts : list string)
    (payload : string) (k : Z) (w : World) :
  options d = Some opts ->
  Py.int payload = Some k ->
  1 - Z.of_nat (List.length opts) <= k <= 0 ->
  (exists label,
      nth_error opts (Z.to_nat (Z.of_nat (List.length opts) + k - 1)) = Some label
      /\ _attr_native_value (self (fst (_message_received d payload w))) = Some label
      /\ snd (_message_received d payload w) = Py.Returned)
  /\ _attr_native_value (self (fst (_message_received d "0" w)))
     = Some (last opts "").
Proof.
  intros Hopts Hint Hk.
  assert (Hne : opts <> []).
  { intros ->. cbn in Hk. lia. }
  split.
  - destruct (nth_error_in_range opts
                (Z.to_nat (Z.of_nat (List.length opts) + k - 1))) as [label Hl]; [lia |].
    exists label. split; [exact Hl |].
    unfold _message_received.
    rewrite (decode_wraps d opts Hopts payload k Hint Hk), Hl.
    split; reflexivity.
  - unfold _message_received.
    assert (H0 : Py.int "0" = Some 0) by reflexivity.
    rewrite (decode_wraps d opts Hopts "0" 0 H0) by lia.
    cbn [fst self _attr_native_value set_native_value].
    rewrite <- (nth_error_last opts "" Hne). f_equal. lia.
Qed.

Lemma negative_subscript_wraps_witness :
  (exists label,
      nth_error ["idle"; "waiting"; "charging"; "pause"]
                (Z.to_nat (Z.of_nat 4 + (-1) - 1)) = Some label
      /\ _attr_native_value (self (fst (_message_received current_state "-1" boot)))
         = Some label
      /\ snd (_message_received current_state "-1" boot) = Py.Returned)
  /\ _attr_native_value (self (fst (_message_received current_state "0" boot)))
     = Some "pause".
Proof.
  apply (negative_subscript_wraps current_state
           ["idle"; "waiting"; "charging"; "pause"] "-1" (-1) boot).
  - reflexivity.
  - reflexivity.
  - cbn. lia.
Defined.

(** * Leaving the host *)

(** C3 fails when no timer is pending: a sensor that was attached and
    has heard nothing, and one whose value has expired, are both still
    unavailable after [async_will_remove_from_hass]. *)
Lemma detach_leaves_unavailable :
  _attr_available
    (self (async_will_remove_from_hass (run current_state [Attach] boot)))
    <> true
  /\ _attr_available
       (self (async_will_remove_from_hass
                (run current_state [Attach; Message "3"; Elapse 600] boot)))
     <> true.
Proof. vm_compute. split; discriminate. Qed.

(** C3 as amended: after [async_will_remove_from_hass] no timer is
    pending; the sensor is available if a timer was pending before and
    keeps its availability otherwise; the pending timer is cancelled
    before the subscription is released. *)
Theorem detach_cancels_expiry (d : PrismSensorEntityDescription) (evs : list event) :
  let w := run d evs boot in
  let w' := async_will_remove_from_hass w in
  _expiration_trigger (self w') = None
  /\ timers (hass w') = []
  /\ _attr_available (self w')
     = match _expiration_trigger (self w) with
       | Some _ => true
       | None => _attr_available (self w)
       end
  /\ calls (hass w')
     = match _unsubscribe (self w) with
       | Some s => [mqtt_unsubscribe s]
       | None => []
       end
       ++ match _expiration_trigger (self w) with
          | Some t => [cancel_timer t]
          | None => []
          end
       ++ calls (hass w).
Proof.
  cbn zeta.
  destruct (detach_fields (run d evs boot) (tidy_reachable d evs))
    as (Htr & Htm & Hav & _ & _ & _ & Hc).
  now repeat split.
Qed.

(** C8: a second [async_will_remove_from_hass] changes no attribute of
    the sensor, but [_unsubscribe] is never cleared, so it is called
    again; after attaching once and detaching twice the host has been
    asked twice to drop the same subscription. *)
Theorem detach_twice_unsubscribes_twice :
  (forall (d : PrismSensorEntityDescription) (evs : list event),
      let w1 := async_will_remove_from_hass (run d evs boot) in
      let w2 := async_will_remove_from_hass w1 in
      self w2 = self w1
      /\ timers (hass w2) = timers (hass w1)
      /\ calls (hass w2)
         = match _unsubscribe (self w1) with
           | Some s => mqtt_unsubscribe s :: calls (hass w1)
           | None => calls (hass w1)
           end)
  /\ calls (hass (run current_state [Attach; Detach] boot))
     = [mqtt_unsubscribe 0%nat; mqtt_subscribe "1/state" 0%nat]
  /\ calls (hass (run current_state [Attach; Detach; Detach] boot))
     = [mqtt_unsubscribe 0%nat; mqtt_unsubscribe 0%nat;
        mqtt_subscribe "1/state" 0%nat].
Proof.
  split; [| split; reflexivity].
  intros d evs. cbn zeta.
  pose proof (tidy_reachable d evs) as Ht.
  destruct (detach_fields _ Ht) as (Htr & Htm & _).
  set (w1 := async_will_remove_from_hass (run d evs boot)) in *.
  unfold async_will_remove_from_hass at 1 2 3, _unsubscribe_topic.
  rewrite Htr. destruct (_unsubscribe (self w1)); now repeat split.
Qed.

(** * Expiry *)

(** C4: with a positive [expire_after], a message makes the sensor
    available, calls the old trigger and sets one new timer, due a full
    [expire_after] later.  Waits that add up to less leave the sensor
    available and nothing expires; waits that add up to [expire_after]
    or more expire the value exactly once and leave the sensor
    unavailable with no timer.  A second message before the first
    timer is due starts a new full period. *)
Theorem message_rearms_expiry
    (d : PrismSensorEntityDescription) (e : Z) (evs : list event) (payload : string) :
  expire_after d = Some e ->
  0 < e ->
  let w := run d evs boot in
  let w1 := fst (_message_received d payload w) in
  _attr_available (self w1) = true
  /\ _expiration_trigger (self w1) = Some (fresh (hass w))
  /\ timers (hass w1) = [(fresh (hass w), now (hass w) + e)]
  /\ calls (hass (rearm d w))
     = call_later (fresh (hass w)) (now (hass w) + e)
         :: match _expiration_trigger (self w) with
            | Some t => [cancel_timer t]
            | None => []
            end ++ calls (hass w)
  /\ (forall dts,
         Forall (fun dt => 0 <= dt) dts -> total dts < e ->
         let w2 := run d (waits dts) w1 in
         _attr_available (self w2) = true
         /\ expirations w2 = expirations w1
         /\ timers (hass w2) = timers (hass w1))
  /\ (forall dts,
         e <= total dts ->
         let w2 := run d (waits dts) w1 in
         _attr_available (self w2) = false
         /\ expirations w2 = S (expirations w1)
         /\ _expiration_trigger (self w2) = None
         /\ timers (hass w2) = [])
  /\ (forall d1 d2 payload2,
         0 <= d1 < e -> 0 <= d2 ->
         let w2 := run d [Elapse d1; Message payload2; Elapse d2] w1 in
         if d2 <? e
         then _attr_available (self w2) = true /\ expirations w2 = expirations w1
         else _attr_available (self w2) = false /\ expirations w2 = S (expirations w1)).
Proof.
  intros He Hpos w w1.
  pose proof (tidy_reachable d evs) as Ht. fold w in Ht.
  destruct (message_on d e payload w He Hpos Ht) as (Hav & Htr & Htm & Hnow & Hex).
  fold w1 in Hav, Htr, Htm, Hnow, Hex.
  destruct (rearm_on d e w He Hpos Ht) as (_ & _ & _ & Hcalls).
  repeat split; try assumption.
  - rewrite (waits_early d dts w1 _ _ Htm) by (trivial; lia). exact Hav.
  - now rewrite (waits_early d dts w1 _ _ Htm) by (trivial; lia).
  - now rewrite (waits_early d dts w1 _ _ Htm) by (trivial; lia).
  - rewrite (waits_due d dts w1 _ _ Htm) by lia. reflexivity.
  - rewrite (waits_due d dts w1 _ _ Htm) by lia. reflexivity.
  - rewrite (waits_due d dts w1 _ _ Htm) by lia. reflexivity.
  - rewrite (waits_due d dts w1 _ _ Htm) by lia. reflexivity.
  - intros d1 d2 payload2 Hd1 Hd2.
    cbn [run fold_left step].
    rewrite (elapse_early d1 w1 _ _ Htm) by lia.
    set (wa := mkWorld (self w1) _).
    assert (Hta : tidy wa).
    { unfold tidy, wa. cbn. rewrite Htr. now eexists. }
    destruct (message_on d e payload2 wa He Hpos Hta) as (Hav2 & _ & Htm2 & Hnow2 & Hex2).
    set (wb := fst (_message_received d payload2 wa)) in *.
    destruct (Z.ltb_spec d2 e) as [Hlt | Hge].
    + rewrite (elapse_early d2 wb _ _ Htm2) by lia. cbn [self].
      split; [exact Hav2 |]. unfold expirations in *. cbn. now rewrite Hex2.
    + rewrite (elapse_due d2 wb _ _ Htm2) by lia.
      split; [reflexivity |]. unfold expirations in *. cbn. now rewrite Hex2.
Qed.

Lemma message_rearms_expiry_witness :
  let w := run current_state [Attach; Message "1"; Elapse 10] boot in
  let w1 := fst (_message_received current_state "3" w) in
  _attr_available (self w1) = true
  /\ timers (hass w1) = [(2%nat, 610)]
  /\ _attr_available (self (run current_state (waits [200; 399]) w1)) = true
  /\ _attr_available (self (run current_state (waits [200; 400; 5]) w1)) = false
  /\ expirations (run current_state (waits [200; 400; 5]) w1) = 1%nat.
Proof.
  destruct (message_rearms_expiry current_state 600
              [Attach; Message "1"; Elapse 10] "3" eq_refl ltac:(lia))
    as (Hav & _ & Htm & _ & Hshort & Hlong & _).
  split; [exact Hav |]. split; [exact Htm |].
  split.
  - apply (Hshort [200; 399]); [repeat constructor; lia | cbn; lia].
  - destruct (Hlong [200; 400; 5]) as (H1 & H2 & _); [cbn; lia |].
    split; [exact H1 | exact H2].
Defined.

(** C5 fails on availability: with the expiry off a message does not
    make the sensor available; once attached it stays unavailable. *)
Lemma expiry_off_message_not_available :
  expiry_off power_grid_voltage_no_expiry
  /\ _attr_available
       (self (run power_grid_voltage_no_expiry [Attach; Message "230"] boot))
     <> true.
Proof. split; [cbn; lia | vm_compute; discriminate]. Qed.

(** C5 as amended: with the expiry off no timer is ever scheduled, the
    value never expires, and time alone changes nothing about the
    sensor; attaching makes it unavailable, and neither a message nor
    detaching changes its availability. *)
Theorem expiry_off_never_expires
    (d : PrismSensorEntityDescription) (evs : list event) :
  expiry_off d ->
  let w := run d evs boot in
  _expiration_trigger (self w) = None
  /\ timers (hass w) = []
  /\ expirations w = 0%nat
  /\ (forall dt, self (elapse dt w) = self w)
  /\ (forall ev,
         _attr_available (self (step d w ev))
         = match ev with
           | Attach => false
           | _ => _attr_available (self w)
           end).
Proof.
  intros Hoff w.
  destruct (quiet_run d evs boot Hoff) as (Htr & Htm & Hex).
  { now repeat split. }
  fold w in Htr, Htm, Hex.
  repeat split; try assumption.
  - intros dt. now rewrite (elapse_idle dt w Htm).
  - intros [| payload | dt |]; cbn [step].
    + reflexivity.
    + unfold _message_received. rewrite (rearm_off d w Hoff).
      now destruct (decode d payload).
    + now rewrite (elapse_idle dt w Htm).
    + unfold async_will_remove_from_hass, _unsubscribe_topic. rewrite Htr.
      now destruct (_unsubscribe (self w)).
Qed.

Lemma expiry_off_never_expires_witness :
  let w := run power_grid_voltage_no_expiry [Attach; Message "230"; Elapse 5000] boot in
  _expiration_trigger (self w) = None
  /\ timers (hass w) = []
  /\ expirations w = 0%nat
  /\ (forall dt, self (elapse dt w) = self w)
  /\ (forall ev,
         _attr_available (self (step power_grid_voltage_no_expiry w ev))
         = match ev with
           | Attach => false
           | _ => _attr_available (self w)
           end).
Proof.
  apply (expiry_off_never_expires power_grid_voltage_no_expiry
           [Attach; Message "230"; Elapse 5000]).
  cbn. lia.
Defined.

(** C6: along every run the host holds at most one timer of the sensor,
    before and after each event; when a message rearms the expiry, the
    old trigger is called before the new timer is set, and the new timer
    is the only one. *)
Theorem at_most_one_timer (d : PrismSensorEntityDescription) (evs : list event) :
  let w := run d evs boot in
  (List.length (timers (hass w)) <= 1)%nat
  /\ (forall ev, (List.length (timers (hass (step d w ev))) <= 1)%nat)
  /\ match expire_after d with
     | Some e =>
         if 0 <? e
         then timers (hass (rearm d w)) = [(fresh (hass w), now (hass w) + e)]
              /\ calls (hass (rearm d w))
                 = call_later (fresh (hass w)) (now (hass w) + e)
                     :: match _expiration_trigger (self w) with
                        | Some t => [cancel_timer t]
                        | None => []
                        end ++ calls (hass w)
         else rearm d w = w
     | None => rearm d w = w
     end.
Proof.
  intros w. pose proof (tidy_reachable d evs) as Ht. fold w in Ht.
  split; [now apply tidy_at_most_one |].
  split; [intros ev; now apply tidy_at_most_one, tidy_step |].
  destruct (expire_after d) as [e |] eqn:He.
  - destruct (Z.ltb_spec 0 e) as [Hpos | Hle].
    + destruct (rearm_on d e w He Hpos Ht) as (_ & _ & Htm & Hc). now split.
    + apply rearm_off. unfold expiry_off. now rewrite He.
  - apply rearm_off. unfold expiry_off. now rewrite He.
Qed.

(** C7 fails after an expiry: the sensor is unavailable but still holds
    the last reading. *)
Lemma expired_value_is_kept :
  let w := run current_state [Attach; Message "3"; Elapse 600] boot in
  expirations w = 1%nat
  /\ _attr_available (self w) = false
  /\ _attr_native_value (self w) = Some "charging"
  /\ _attr_native_value (self w) <> None.
Proof. vm_compute. repeat split; discriminate. Qed.

(** C7 as amended: while no message has been received the sensor has no
    value; a message that is decoded sets the value to the decoded
    reading, and one that is not leaves it; an expiry, the passing of
    time, attaching and detaching leave the value as it is.  So after
    every run the value is the reading of the last message that was
    decoded, expired or not. *)
Theorem value_is_last_reading (d : PrismSensorEntityDescription) :
  (forall evs,
      forallb (fun ev => negb (is_message ev)) evs = true ->
      _attr_native_value (self (run d evs boot)) = None)
  /\ (forall payload w,
         _attr_native_value (self (fst (_message_received d payload w)))
         = match decode d payload with
           | inr v => v
           | inl _ => _attr_native_value (self w)
           end)
  /\ (forall w, _attr_native_value (self (_value_is_expired w))
                = _attr_native_value (self w))
  /\ (forall dt w, _attr_native_value (self (elapse dt w))
                   = _attr_native_value (self w))
  /\ (forall w, _attr_native_value (self (async_added_to_hass d w))
                = _attr_native_value (self w))
  /\ (forall w, _attr_native_value (self (async_will_remove_from_hass w))
                = _attr_native_value (self w))
  /\ (forall evs, _attr_native_value (self (run d evs boot)) = last_reading d evs).
Proof.
  assert (Hmsg : forall payload w,
             _attr_native_value (self (fst (_message_received d payload w)))
             = match decode d payload with
               | inr v => v
               | inl _ => _attr_native_value (self w)
               end).
  { intros payload w. unfold _message_received.
    destruct (decode d payload); [| reflexivity].
    apply (rearm_keeps d w). }
  assert (Hdet : forall w,
             _attr_native_value (self (async_will_remove_from_hass w))
             = _attr_native_value (self w)).
  { intros w. unfold async_will_remove_from_hass, _unsubscribe_topic.
    destruct w as [[av v [t |] [s |]] h]; reflexivity. }
  split; [| split; [| split; [| split; [| split; [| split]]]]].
  - intros evs Hno. now rewrite (no_message_no_value d evs boot Hno).
  - exact Hmsg.
  - reflexivity.
  - intros dt w. apply elapse_value.
  - reflexivity.
  - exact Hdet.
  - intros evs. unfold last_reading.
    change (@None string) with (_attr_native_value (self boot)) at 1.
    generalize boot. induction evs as [| ev evs IH]; intros w; [reflexivity |].
    cbn [run fold_left]. change (fold_left (step d) evs) with (run d evs).
    rewrite IH. f_equal. destruct ev; cbn [step].
    + reflexivity.
    + apply Hmsg.
    + apply elapse_value.
    + apply Hdet.
Qed.

Lemma value_is_last_reading_witness :
  _attr_native_value
    (self (run current_state [Attach; Elapse 700; Detach; Attach] boot)) = None
  /\ _attr_native_value
       (self (run current_state
                [Attach; Message "3"; Message "x"; Elapse 600; Detach; Attach] boot))
     = Some "charging".
Proof.
  destruct (value_is_last_reading current_state)
    as (Hno & _ & _ & _ & _ & _ & Hrun).
  split.
  - apply Hno. reflexivity.
  - rewrite Hrun. reflexivity.
Defined.

(** * The calls each method makes *)

Section Calls.

Variable description : PrismSensorEntityDescription.

Lemma calls_rearm w :
  exists added,
    calls (hass (rearm description w)) = added ++ calls (hass w)
    /\ Forall (fun c => is_timer_call c = true) added.
Proof.
  unfold rearm. destruct (expire_after description) as [e |].
  - destruct (0 <? e).
    + cbn. destruct (_expiration_trigger (self w)) as [t |]; cbn.
      * exists [call_later (fresh (hass w)) (now (hass w) + e); cancel_timer t].
        split; [reflexivity | repeat constructor].
      * exists [call_later (fresh (hass w)) (now (hass w) + e)].
        split; [reflexivity | repeat constructor].
    + exists []. split; [reflexivity | constructor].
  - exists []. split; [reflexivity | constructor].
Qed.

Lemma calls_message payload w :
  calls (hass (fst (_message_received description payload w)))
  = (if decodes description (Message payload)
     then [schedule_update_ha_state] else [])
    ++ calls (hass (rearm description w)).
Proof.
  unfold _message_received, decodes.
  destruct (decode description payload); reflexivity.
Qed.

Lemma calls_expired (due : list (handle * Z)) : forall w,
  exists added,
    calls (hass (fold_left (fun w _ => _value_is_expired w) due w))
    = added ++ calls (hass w)
    /\ Forall (fun c => c = async_write_ha_state) added.
Proof.
  induction due as [| p due IH]; intros w.
  - exists []. split; [reflexivity | constructor].
  - cbn [fold_left]. destruct (IH (_value_is_expired w)) as (added & E & Hall).
    exists (added ++ [async_write_ha_state]). split.
    + rewrite E. cbn. now rewrite <- app_assoc.
    + apply Forall_app. split; [exact Hall | repeat constructor].
Qed.

Lemma calls_elapse dt w :
  exists added,
    calls (hass (elapse dt w)) = added ++ calls (hass w)
    /\ Forall (fun c => c = async_write_ha_state) added.
Proof.
  unfold elapse.
  destruct (calls_expired
              (filter (is_due (now (hass w) + dt)) (timers (hass w)))
              (mkWorld (self w)
                 (mkHass (now (hass w) + dt)
                    (filter (fun p => negb (is_due (now (hass w) + dt) p))
                            (timers (hass w)))
                    (fresh (hass w)) (calls (hass w)))))
    as (added & E & Hall).
  exists added. split; [exact E | exact Hall].
Qed.

Lemma calls_detach w :
  calls (hass (async_will_remove_from_hass w))
  = match _unsubscribe (self w) with
    | Some s => [mqtt_unsubscribe s]
    | None => []
    end
    ++ match _expiration_trigger (self w) with
       | Some t => [cancel_timer t]
       | None => []
       end
    ++ calls (hass w).
Proof.
  unfold async_will_remove_from_hass, _unsubscribe_topic.
  destruct w as [[av v [t |] [s |]] h]; reflexivity.
Qed.

Lemma count_app f l1 l2 : count f (l1 ++ l2) = (count f l1 + count f l2)%nat.
Proof. unfold count. now rewrite filter_app, length_app. Qed.

Lemma count_none f (P : call -> Prop) l :
  (forall c, P c -> f c = false) -> Forall P l -> count f l = 0%nat.
Proof.
  intros Hf Hall. unfold count. induction Hall as [| c l Hc _ IH]; [reflexivity |].
  cbn. now rewrite (Hf c Hc).
Qed.

Lemma latest_subscription_skip (P : call -> Prop) l1 l2 :
  (forall c, P c -> is_subscribe c = false) -> Forall P l1 ->
  latest_subscription (l1 ++ l2) = latest_subscription l2.
Proof.
  intros Hf Hall. induction Hall as [| c l Hc _ IH]; [reflexivity |].
  specialize (Hf c Hc). destruct c; try discriminate; exact IH.
Qed.

Lemma subscriptions_skip (P : call -> Prop) l1 l2 :
  (forall c, P c -> is_subscribe c = false) -> Forall P l1 ->
  subscriptions (l1 ++ l2) = subscriptions l2.
Proof.
  intros Hf Hall. induction Hall as [| c l Hc _ IH]; [reflexivity |].
  specialize (Hf c Hc). destruct c; try discriminate; exact IH.
Qed.

Lemma unsubscribes_latest_skip (P : call -> Prop) l1 l2 :
  (forall c, P c -> forall s, c <> mqtt_unsubscribe s) ->
  Forall P l1 -> unsubscribes_latest l2 -> unsubscribes_latest (l1 ++ l2).
Proof.
  intros Hf Hall H2. induction Hall as [| c l Hc _ IH]; [exact H2 |].
  specialize (Hf c Hc). destruct c; try exact IH.
  now elim (Hf sub).
Qed.

End Calls.

(** * What a sensor's value can be *)

Lemma getitem_In {A : Type} (l : list A) (i : Z) (x : A) :
  Py.getitem l i = Some x -> In x l.
Proof.
  unfold Py.getitem.
  destruct (0 <=? i); [apply nth_error_In |].
  destruct (- Z.of_nat (List.length l) <=? i); [apply nth_error_In | discriminate].
Qed.

Lemma expired_self (due : list (handle * Z)) : forall w,
  self (fold_left (fun w _ => _value_is_expired w) due w) = self w
  \/ self (fold_left (fun w _ => _value_is_expired w) due w)
     = set_available false (set_expiration_trigger None (self w)).
Proof.
  induction due as [| p due IH]; intros w; [now left |].
  cbn [fold_left]. right.
  destruct (IH (_value_is_expired w)) as [E | E]; rewrite E; reflexivity.
Qed.

(** What time does to the sensor itself: nothing, or one expiry. *)
Lemma elapse_self dt w :
  self (elapse dt w) = self w
  \/ self (elapse dt w) = set_available false (set_expiration_trigger None (self w)).
Proof.
  unfold elapse.
  exact (expired_self
           (filter (is_due (now (hass w) + dt)) (timers (hass w)))
           (mkWorld (self w)
              (mkHass (now (hass w) + dt)
                 (filter (fun p => negb (is_due (now (hass w) + dt) p))
                         (timers (hass w)))
                 (fresh (hass w)) (calls (hass w))))).
Qed.

Lemma elapse_unsubscribe dt w :
  _unsubscribe (self (elapse dt w)) = _unsubscribe (self w).
Proof. destruct (elapse_self dt w) as [E | E]; now rewrite E. Qed.

Lemma detach_value w :
  _attr_native_value (self (async_will_remove_from_hass w))
  = _attr_native_value (self w)
  /\ _unsubscribe (self (async_will_remove_from_hass w)) = _unsubscribe (self w).
Proof.
  unfold async_will_remove_from_hass, _unsubscribe_topic.
  destruct w as [[av v [t |] [s |]] h]; split; reflexivity.
Qed.

(** A payload that reads as an integer is always decoded: from 1 to the
    number of options it selects the option at that place, and below
    [1 - n] or above [n] it gives no value. *)
Theorem enumerated_decoding_by_range
    (d : PrismSensorEntityDescription) (opts : list string)
    (payload : string) (k : Z) (w : World) :
  options d = Some opts ->
  Py.int payload = Some k ->
  let r := _message_received d payload w in
  snd r = Py.Returned
  /\ (1 <= k <= Z.of_nat (List.length opts) ->
      exists label,
        nth_error opts (Z.to_nat (k - 1)) = Some label
        /\ _attr_native_value (self (fst r)) = Some label)
  /\ (k < 1 - Z.of_nat (List.length opts) \/ Z.of_nat (List.length opts) < k ->
      _attr_native_value (self (fst r)) = None).
Proof.
  intros Hopts Hint. cbn zeta. unfold _message_received.
  rewrite (decode_int d opts Hopts payload k Hint). cbn [fst snd].
  split; [reflexivity |]. split.
  - intros Hk.
    destruct (nth_error_in_range opts (Z.to_nat (k - 1))) as [label Hl]; [lia |].
    exists label. split; [exact Hl |].
    cbn. now rewrite getitem_nonneg, Hl by lia.
  - intros [Hk | Hk]; cbn.
    + apply getitem_below. lia.
    + apply getitem_above. lia.
Qed.

Lemma enumerated_decoding_by_range_witness :
  let r := _message_received current_state "2" boot in
  snd r = Py.Returned
  /\ _attr_native_value (self (fst r)) = Some "waiting"
  /\ _attr_native_value (self (fst (_message_received current_state "-9" boot)))
     = None.
Proof.
  destruct (enumerated_decoding_by_range current_state
              ["idle"; "waiting"; "charging"; "pause"] "2" 2 boot eq_refl eq_refl)
    as (Hret & Hin & _).
  destruct (enumerated_decoding_by_range current_state
              ["idle"; "waiting"; "charging"; "pause"] "-9" (-9) boot eq_refl eq_refl)
    as (_ & _ & Hout).
  split; [exact Hret |]. split.
  - destruct Hin as (label & Hl & Hv); [cbn; lia |].
    cbn in Hl. injection Hl as <-. exact Hv.
  - apply Hout. left. cbn. lia.
Defined.

(** With [options], whatever happens to the sensor its value is one of
    the options or no value at all. *)
Theorem enum_value_is_an_option
    (d : PrismSensorEntityDescription) (opts : list string) (evs : list event) :
  options d = Some opts ->
  match _attr_native_value (self (run d evs boot)) with
  | Some v => In v opts
  | None => True
  end.
Proof.
  intros Hopts.
  assert (Hgen : forall evs w,
             match _attr_native_value (self w) with
             | Some v => In v opts
             | None => True
             end ->
             match _attr_native_value (self (run d evs w)) with
             | Some v => In v opts
             | None => True
             end).
  { clear evs. induction evs as [| ev evs IH]; intros w Hw; [exact Hw |].
    cbn [run fold_left]. change (fold_left (step d) evs) with (run d evs).
    apply IH. destruct ev; cbn [step].
    - exact Hw.
    - unfold _message_received, decode. rewrite Hopts.
      destruct (Py.int payload) as [k |]; cbn.
      + destruct (Py.getitem opts (k - 1)) as [label |] eqn:E; cbn; [| exact I].
        now apply getitem_In in E.
      + now rewrite (proj1 (rearm_keeps d w)).
    - now rewrite elapse_value.
    - now rewrite (proj1 (detach_value w)). }
  apply Hgen. exact I.
Qed.

Lemma enum_value_is_an_option_witness :
  match _attr_native_value
          (self (run current_state
                   [Attach; Message "2"; Message "x"; Elapse 700; Message "0"] boot)) with
  | Some v => In v ["idle"; "waiting"; "charging"; "pause"]
  | None => True
  end.
Proof.
  apply (enum_value_is_an_option current_state
           ["idle"; "waiting"; "charging"; "pause"]).
  reflexivity.
Defined.

(** Without [options] a message is never refused, and the value is the
    payload of the last message, as it came; before the first message
    there is no value. *)
Theorem raw_value_is_last_payload
    (d : PrismSensorEntityDescription) (evs : list event) :
  options d = None ->
  _attr_native_value (self (run d evs boot)) = last_payload evs
  /\ forall payload w, snd (_message_received d payload w) = Py.Returned.
Proof.
  intros Hopts. split.
  - unfold last_payload.
    change (@None string) with (_attr_native_value (self boot)) at 1.
    generalize boot. induction evs as [| ev evs IH]; intros w; [reflexivity |].
    cbn [run fold_left]. change (fold_left (step d) evs) with (run d evs).
    rewrite IH. f_equal. destruct ev; cbn [step].
    + reflexivity.
    + unfold _message_received, decode. now rewrite Hopts.
    + apply elapse_value.
    + apply detach_value.
  - intros payload w. unfold _message_received, decode. now rewrite Hopts.
Qed.

Lemma raw_value_is_last_payload_witness :
  _attr_native_value
    (self (run power_grid_voltage_no_expiry
             [Attach; Message "229.6"; Elapse 5; Message " n/a "; Detach] boot))
  = Some " n/a ".
Proof.
  apply (proj1 (raw_value_is_last_payload power_grid_voltage_no_expiry
                  [Attach; Message "229.6"; Elapse 5; Message " n/a "; Detach]
                  eq_refl)).
Defined.

(** The host is asked to update the state once for each message that is
    decoded, and never otherwise: not for a message that raises, not
    when the value expires, not on attaching or detaching. *)
Theorem one_update_per_decoded_message
    (d : PrismSensorEntityDescription) (evs : list event) :
  count is_schedule_update (calls (hass (run d evs boot)))
  = List.length (filter (decodes d) evs).
Proof.
  assert (Hgen : forall evs w,
             count is_schedule_update (calls (hass (run d evs w)))
             = (List.length (filter (decodes d) evs)
                + count is_schedule_update (calls (hass w)))%nat).
  { clear evs. induction evs as [| ev evs IH]; intros w; [reflexivity |].
    cbn [run fold_left]. change (fold_left (step d) evs) with (run d evs).
    rewrite IH. cbn [filter]. destruct ev; cbn [step].
    - reflexivity.
    - rewrite calls_message.
      destruct (calls_rearm d w) as (added & -> & Hall).
      rewrite !count_app.
      rewrite (count_none is_schedule_update _ added) with (2 := Hall)
        by (intros [] ?; reflexivity || discriminate).
      destruct (decodes d (Message payload)); cbn; lia.
    - destruct (calls_elapse dt w) as (added & -> & Hall).
      rewrite count_app.
      rewrite (count_none is_schedule_update _ added) with (2 := Hall)
        by (intros c ->; reflexivity).
      cbn. lia.
    - rewrite calls_detach, !count_app.
      destruct (_unsubscribe (self w)), (_expiration_trigger (self w)); cbn; lia. }
  rewrite Hgen. cbn. lia.
Qed.

(** * Subscriptions *)

Section Subscriptions.

Variable description : PrismSensorEntityDescription.

Lemma expired_hass (due : list (handle * Z)) : forall w,
  fresh (hass (fold_left (fun w _ => _value_is_expired w) due w)) = fresh (hass w).
Proof.
  induction due as [| p due IH]; intros w; [reflexivity |].
  cbn [fold_left]. now rewrite IH.
Qed.

Lemma fresh_rearm w :
  (fresh (hass w) <= fresh (hass (rearm description w)))%nat.
Proof.
  unfold rearm. destruct (expire_after description) as [e |]; [| lia].
  destruct (0 <? e); [| lia].
  cbn. destruct (_expiration_trigger (self w)); cbn; lia.
Qed.

Lemma fresh_step w ev :
  (fresh (hass w) <= fresh (hass (step description w ev)))%nat.
Proof.
  destruct ev; cbn [step].
  - cbn. lia.
  - pose proof (fresh_rearm w). unfold _message_received.
    now destruct (decode description payload).
  - unfold elapse. rewrite expired_hass. cbn. lia.
  - unfold async_will_remove_from_hass, _unsubscribe_topic.
    destruct w as [[av v [t |] [s |]] h]; cbn; lia.
Qed.

(** Only attaching subscribes: to the sensor's topic, under a handle
    not used before. *)
Lemma subscriptions_step w ev :
  subscriptions (calls (hass (step description w ev)))
  = subscriptions (calls (hass w))
    ++ (if is_attach ev then [(topic description, fresh (hass w))] else []).
Proof.
  destruct ev; cbn [step is_attach]; rewrite ?app_nil_r.
  - reflexivity.
  - rewrite calls_message.
    destruct (calls_rearm description w) as (added & -> & Hall).
    assert (E : subscriptions (added ++ calls (hass w)) = subscriptions (calls (hass w))).
    { apply (subscriptions_skip (fun c => is_timer_call c = true)); [| exact Hall].
      intros c Hc. now destruct c. }
    now destruct (decodes description (Message payload)).
  - destruct (calls_elapse dt w) as (added & -> & Hall).
    apply (subscriptions_skip (fun c => c = async_write_ha_state)); [| exact Hall].
    now intros c ->.
  - rewrite calls_detach.
    now destruct (_unsubscribe (self w)), (_expiration_trigger (self w)).
Qed.

Lemma latest_subscription_step w ev :
  _unsubscribe (self w) = latest_subscription (calls (hass w)) ->
  unsubscribes_latest (calls (hass w)) ->
  _unsubscribe (self (step description w ev))
  = latest_subscription (calls (hass (step description w ev)))
  /\ unsubscribes_latest (calls (hass (step description w ev))).
Proof.
  intros Hun Hall. destruct ev; cbn [step].
  - split; [reflexivity | exact Hall].
  - destruct (message_keeps description payload w) as (_ & _ & _ & _ & -> & _).
    rewrite calls_message.
    destruct (calls_rearm description w) as (added & -> & Hadded).
    assert (E : latest_subscription (added ++ calls (hass w))
                = latest_subscription (calls (hass w))).
    { apply (latest_subscription_skip (fun c => is_timer_call c = true));
        [| exact Hadded].
      intros c Hc. now destruct c. }
    assert (U : unsubscribes_latest (added ++ calls (hass w))).
    { apply (unsubscribes_latest_skip (fun c => is_timer_call c = true));
        [| exact Hadded | exact Hall].
      intros c Hc s ->. discriminate. }
    destruct (decodes description (Message payload)); cbn; rewrite E; now split.
  - rewrite elapse_unsubscribe.
    destruct (calls_elapse dt w) as (added & -> & Hadded). split.
    + rewrite Hun. symmetry.
      apply (latest_subscription_skip (fun c => c = async_write_ha_state));
        [| exact Hadded].
      now intros c ->.
    + apply (unsubscribes_latest_skip (fun c => c = async_write_ha_state));
        [| exact Hadded | exact Hall].
      intros c -> s. discriminate.
  - rewrite (proj2 (detach_value w)), calls_detach.
    destruct (_unsubscribe (self w)) as [s |],
             (_expiration_trigger (self w)) as [t |]; cbn; now repeat split.
Qed.

End Subscriptions.

(** Along every run there is one subscription for each time the sensor
    was attached, all to the sensor's topic and under handles of their
    own; the handle kept in [_unsubscribe] is that of the newest one,
    and there is none before the first attach. *)
Theorem subscriptions_follow_attaches
    (d : PrismSensorEntityDescription) (evs : list event) :
  let w := run d evs boot in
  let subs := subscriptions (calls (hass w)) in
  List.length subs = List.length (filter is_attach evs)
  /\ Forall (fun p => fst p = topic d) subs
  /\ NoDup (map snd subs)
  /\ _unsubscribe (self w) = latest_subscription (calls (hass w)).
Proof.
  cbn zeta.
  assert (Hgen : forall evs w,
             Forall (fun p => fst p = topic d /\ (snd p < fresh (hass w))%nat)
                    (subscriptions (calls (hass w))) ->
             NoDup (map snd (subscriptions (calls (hass w)))) ->
             _unsubscribe (self w) = latest_subscription (calls (hass w)) ->
             unsubscribes_latest (calls (hass w)) ->
             let w' := run d evs w in
             List.length (subscriptions (calls (hass w')))
             = (List.length (subscriptions (calls (hass w)))
                + List.length (filter is_attach evs))%nat
             /\ Forall (fun p => fst p = topic d) (subscriptions (calls (hass w')))
             /\ NoDup (map snd (subscriptions (calls (hass w'))))
             /\ _unsubscribe (self w') = latest_subscription (calls (hass w'))).
  { clear evs. induction evs as [| ev evs IH]; intros w Hsub Hnd Hun Hall.
    - cbn. repeat split; try assumption; [lia |].
      eapply Forall_impl; [| exact Hsub]. now intros p [H _].
    - cbn [run fold_left]. change (fold_left (step d) evs) with (run d evs).
      destruct (latest_subscription_step d w ev Hun Hall) as (Hun' & Hall').
      pose proof (fresh_step d w ev) as Hfresh.
      pose proof (subscriptions_step d w ev) as Hstep.
      assert (Hsub' : Forall (fun p => fst p = topic d
                                       /\ (snd p < fresh (hass (step d w ev)))%nat)
                             (subscriptions (calls (hass (step d w ev))))).
      { rewrite Hstep. apply Forall_app. split.
        - eapply Forall_impl; [| exact Hsub]. cbn. intros p [H1 H2].
          split; [exact H1 | lia].
        - destruct ev; cbn [is_attach]; [| constructor ..].
          constructor; [| constructor]. cbn. split; [reflexivity | lia]. }
      assert (Hnd' : NoDup (map snd (subscriptions (calls (hass (step d w ev)))))).
      { rewrite Hstep, map_app. destruct ev; cbn; rewrite ?app_nil_r; try exact Hnd.
        apply NoDup_app; [exact Hnd | repeat constructor; intros [] |].
        intros h Hin [E | []]. rewrite <- E in Hin.
        apply in_map_iff in Hin as (p & Ep & Hp).
        rewrite Forall_forall in Hsub. destruct (Hsub p Hp) as [_ Hlt].
        unfold handle in *. lia. }
      destruct (IH (step d w ev) Hsub' Hnd' Hun' Hall') as (Hlen & Htop & Hnd2 & Hun2).
      repeat split; try assumption.
      rewrite Hlen, Hstep, length_app. destruct ev; cbn; lia. }
  destruct (Hgen evs boot) as (Hlen & Htop & Hnd & Hun).
  - constructor.
  - constructor.
  - reflexivity.
  - exact I.
  - repeat split; assumption.
Qed.

(** Every call to unsubscribe is for the newest subscription made
    before it: a subscription that a second attach has replaced is never
    released, and nothing is released before the first attach. *)
Theorem unsubscribe_names_latest_subscription
    (d : PrismSensorEntityDescription) (evs : list event) :
  unsubscribes_latest (calls (hass (run d evs boot))).
Proof.
  assert (Hgen : forall evs w,
             _unsubscribe (self w) = latest_subscription (calls (hass w)) ->
             unsubscribes_latest (calls (hass w)) ->
             unsubscribes_latest (calls (hass (run d evs w)))).
  { clear evs. induction evs as [| ev evs IH]; intros w Hun Hall; [exact Hall |].
    cbn [run fold_left]. change (fold_left (step d) evs) with (run d evs).
    destruct (latest_subscription_step d w ev Hun Hall) as (Hun' & Hall').
    now apply IH. }
  apply Hgen; [reflexivity | exact I].
Qed.

(** * Expiry along a run *)

Section Runs.

Variable description : PrismSensorEntityDescription.

Lemma waits_unavailable dts : forall w,
  _attr_available (self w) = false ->
  _attr_available (self (run description (waits dts) w)) = false.
Proof.
  induction dts as [| dt dts IH]; intros w Hw; [exact Hw |].
  cbn [waits map run fold_left step].
  change (fold_left (step description) (map Elapse dts))
    with (run description (waits dts)).
  apply IH. destruct (elapse_self dt w) as [E | E]; rewrite E; [exact Hw | reflexivity].
Qed.

Lemma expirations_step w ev :
  tidy w ->
  (expirations (step description w ev)
   + List.length (timers (hass (step description w ev)))
   <= expirations w + List.length (timers (hass w))
      + (if is_message ev then 1 else 0))%nat.
Proof.
  intros Ht. destruct ev; cbn [step is_message].
  - cbn. unfold expirations. cbn. lia.
  - destruct (message_keeps description payload w) as (_ & -> & _ & _ & _ & ->).
    pose proof (tidy_at_most_one _ (tidy_rearm description w Ht)). lia.
  - unfold tidy in Ht.
    destruct (_expiration_trigger (self w)) as [t |].
    + destruct Ht as [due Ht]. rewrite Ht.
      destruct (Z_lt_le_dec (now (hass w) + dt) due) as [Hlt | Hle].
      * rewrite (elapse_early dt w t due Ht Hlt). unfold expirations. cbn. lia.
      * rewrite (elapse_due dt w t due Ht Hle). unfold expirations. cbn. lia.
    + rewrite (elapse_idle dt w Ht), Ht. unfold expirations. cbn. lia.
  - destruct (detach_fields w Ht) as (_ & -> & _ & _ & _ & _ & Hc).
    unfold expirations. rewrite Hc, !filter_app, !length_app.
    destruct (_unsubscribe (self w)), (_expiration_trigger (self w)); cbn; lia.
Qed.

Lemma in_future_step e w ev :
  expire_after description = Some e -> 0 < e -> forward ev = true ->
  tidy w ->
  Forall (fun p => now (hass w) < snd p <= now (hass w) + e) (timers (hass w)) ->
  Forall (fun p => now (hass (step description w ev)) < snd p
                   <= now (hass (step description w ev)) + e)
         (timers (hass (step description w ev))).
Proof.
  intros He Hpos Hfw Ht Hall. destruct ev; cbn [step].
  - exact Hall.
  - destruct (message_on description e payload w He Hpos Ht)
      as (_ & _ & -> & -> & _).
    repeat constructor; cbn; lia.
  - cbn in Hfw. apply Z.leb_le in Hfw. unfold tidy in Ht.
    destruct (_expiration_trigger (self w)) as [t |].
    + destruct Ht as [due Ht]. rewrite Ht in Hall.
      inversion Hall as [| ? ? Hdue _]; subst. cbn in Hdue.
      destruct (Z_lt_le_dec (now (hass w) + dt) due) as [Hlt | Hle].
      * rewrite (elapse_early dt w t due Ht Hlt).
        repeat constructor; cbn; lia.
      * rewrite (elapse_due dt w t due Ht Hle). constructor.
    + rewrite (elapse_idle dt w Ht). constructor.
  - destruct (detach_fields w Ht) as (_ & -> & _). constructor.
Qed.

End Runs.

(** Once the sensor has been detached no expiry can follow: however
    long the host waits, the sensor stays as the detach left it and the
    host hears nothing more of it. *)
Theorem no_expiry_after_detach
    (d : PrismSensorEntityDescription) (evs : list event) (dts : list Z) :
  let w := async_will_remove_from_hass (run d evs boot) in
  let w' := run d (waits dts) w in
  self w' = self w
  /\ timers (hass w') = []
  /\ calls (hass w') = calls (hass w).
Proof.
  cbn zeta.
  destruct (detach_fields _ (tidy_reachable d evs)) as (_ & Htm & _).
  rewrite (waits_idle d dts _ Htm). now repeat split.
Qed.

(** A value expires only after a message: along every run the expiries
    that have happened and the one that is pending are together no more
    than the messages received. *)
Theorem expiry_needs_a_message
    (d : PrismSensorEntityDescription) (evs : list event) :
  let w := run d evs boot in
  (expirations w + List.length (timers (hass w))
   <= List.length (filter is_message evs))%nat.
Proof.
  cbn zeta.
  assert (Hgen : forall evs w,
             tidy w ->
             (expirations (run d evs w) + List.length (timers (hass (run d evs w)))
              <= expirations w + List.length (timers (hass w))
                 + List.length (filter is_message evs))%nat).
  { clear evs. induction evs as [| ev evs IH]; intros w Ht; [cbn; lia |].
    cbn [run fold_left]. change (fold_left (step d) evs) with (run d evs).
    pose proof (IH _ (tidy_step d w ev Ht)) as H1.
    pose proof (expirations_step d w ev Ht) as H2.
    cbn [filter]. destruct (is_message ev); cbn [List.length]; lia. }
  pose proof (Hgen evs boot (tidy_boot)) as H. cbn in H. exact H.
Qed.

(** Attaching makes the sensor unavailable, and time alone never makes
    it available again, whatever state it was attached in. *)
Theorem attached_sensor_waits_unavailable
    (d : PrismSensorEntityDescription) (w : World) (dts : list Z) :
  _attr_available (self (run d (waits dts) (async_added_to_hass d w))) = false.
Proof. apply waits_unavailable. reflexivity. Qed.

(** With a positive [expire_after], and a clock that does not go back,
    a timer that is pending is due strictly later than the present
    instant and at most [expire_after] from it. *)
Theorem pending_timer_is_in_the_future
    (d : PrismSensorEntityDescription) (e : Z) (evs : list event) :
  expire_after d = Some e ->
  0 < e ->
  forallb forward evs = true ->
  let w := run d evs boot in
  Forall (fun p => now (hass w) < snd p <= now (hass w) + e) (timers (hass w)).
Proof.
  intros He Hpos Hfw. cbn zeta.
  assert (Hgen : forall evs w,
             forallb forward evs = true -> tidy w ->
             Forall (fun p => now (hass w) < snd p <= now (hass w) + e)
                    (timers (hass w)) ->
             Forall (fun p => now (hass (run d evs w)) < snd p
                              <= now (hass (run d evs w)) + e)
                    (timers (hass (run d evs w)))).
  { clear evs Hfw. induction evs as [| ev evs IH]; intros w Hfw Ht Hall; [exact Hall |].
    cbn [forallb] in Hfw. apply andb_prop in Hfw as [Hev Hfw].
    cbn [run fold_left]. change (fold_left (step d) evs) with (run d evs).
    apply IH; [exact Hfw | now apply tidy_step |].
    now apply in_future_step. }
  apply Hgen; [exact Hfw | apply tidy_boot | constructor].
Qed.

Lemma pending_timer_is_in_the_future_witness :
  let w := run current_state [Attach; Message "1"; Elapse 250; Elapse 349] boot in
  Forall (fun p => now (hass w) < snd p <= now (hass w) + 600) (timers (hass w)).
Proof.
  apply (pending_timer_is_in_the_future current_state 600
           [Attach; Message "1"; Elapse 250; Elapse 349]).
  - reflexivity.
  - lia.
  - reflexivity.
Defined.

(** * The table *)

(** [SENSORS] names no key and no topic twice; every row keeps the
    default [expire_after] of 600, so every sensor of the table expires;
    a row has [options] exactly when its device class is [ENUM]; and
    every row is translated under its own key. *)
Theorem sensors_table_is_well_formed :
  NoDup (map (fun r : Row => key (fst r)) SENSORS)
  /\ NoDup (map (fun r : Row => topic (snd r)) SENSORS)
  /\ Forall (fun r : Row => expire_after (snd r) = Some 600) SENSORS
  /\ Forall (fun r : Row => options (snd r) <> None <-> device_class (fst r) = ENUM)
            SENSORS
  /\ Forall (fun r : Row => translation_key (fst r) = key (fst r)
                            /\ has_entity_name (fst r) = true) SENSORS.
Proof.
  split; [| split; [| split; [| split]]].
  - repeat constructor; cbn; intros H;
      repeat (destruct H as [H | H]; [discriminate H |]); exact H.
  - repeat constructor; cbn; intros H;
      repeat (destruct H as [H | H]; [discriminate H |]); exact H.
  - repeat constructor.
  - repeat constructor; cbn; intros H; congruence.
  - repeat constructor.
Qed.

(** A sensor that has been attached is not available before its first
    message: attaching again, detaching and waiting all leave it
    unavailable, with no timer set. *)
Theorem available_needs_a_message
    (d : PrismSensorEntityDescription) (evs : list event) :
  forallb (fun ev => negb (is_message ev)) evs = true ->
  let w := run d (Attach :: evs) boot in
  _attr_available (self w) = false
  /\ _expiration_trigger (self w) = None
  /\ timers (hass w) = [].
Proof.
  intros Hno. cbn zeta. cbn [run fold_left step].
  change (fold_left (step d) evs) with (run d evs).
  assert (Hgen : forall evs w,
             forallb (fun ev => negb (is_message ev)) evs = true ->
             _attr_available (self w) = false ->
             _expiration_trigger (self w) = None ->
             timers (hass w) = [] ->
             _attr_available (self (run d evs w)) = false
             /\ _expiration_trigger (self (run d evs w)) = None
             /\ timers (hass (run d evs w)) = []).
  { clear evs Hno. induction evs as [| ev evs IH]; intros w Hno Hav Htr Htm;
      [now repeat split |].
    cbn [forallb] in Hno. apply andb_prop in Hno as [Hev Hno].
    cbn [run fold_left]. change (fold_left (step d) evs) with (run d evs).
    apply IH; [exact Hno | | |]; destruct ev; cbn [step]; try discriminate Hev;
      try assumption; try reflexivity;
      try (now rewrite (elapse_idle dt w Htm));
      unfold async_will_remove_from_hass, _unsubscribe_topic; rewrite Htr;
      now destruct (_unsubscribe (self w)). }
  apply Hgen; [exact Hno | reflexivity ..].
Qed.

Lemma available_needs_a_message_witness :
  let w := run current_state [Attach; Elapse 900; Detach; Attach; Elapse 5] boot in
  _attr_available (self w) = false
  /\ _expiration_trigger (self w) = None
  /\ timers (hass w) = [].
Proof.
  apply (available_needs_a_message current_state [Elapse 900; Detach; Attach; Elapse 5]).
  reflexivity.
Defined.
